(** * The VHDL target's entity registry, signal map, error counter and driver

    A shallow embedding of [tgt-vhdl/vhdl.cc]: the three file-local globals
    [g_errors], [g_entities] and [g_known_signals], the functions that read
    and write them, and the entry point [target_design].

    The globals are threaded explicitly through a small state monad whose
    outcomes also record a failed [assert] and undefined behaviour. *)

From stdpp Require Import base option list strings gmap.
From Stdlib Require Import ZArith Lia.

Local Open Scope Z_scope.

(** ** Data *)

(** [ivl_signal_t] is an opaque handle owned by the compiler core; only its
    identity matters here, it is the key of [std::map]. *)
Definition ivl_signal_t := N.

(** A [vhdl_entity*]: the address of the object and the name [get_name()]
    returns, which is fixed when the object is constructed. *)
Record vhdl_entity := { ent_addr : N; ent_name : string }.

Definition get_name (e : vhdl_entity) : string := ent_name e.

Global Instance vhdl_entity_eq_dec : EqDecision vhdl_entity.
Proof. solve_decision. Defined.

(** A [const vhdl_entity *] that may be [NULL]. *)
Definition entity_ptr := option vhdl_entity.

Definition NULL : entity_ptr := None.

Record signal_defn_t := {
  renamed : string;   (* The name of the VHDL signal *)
  ent : entity_ptr    (* The entity where it is defined *)
}.

(** [std::list<vhdl_entity*>]: only non-null pointers are ever stored,
    [remember_entity] dereferences its argument before [push_back]. *)
Definition entity_list_t := list vhdl_entity.

(** What the process does to the outside: text on standard output, and the
    calls made on the output file stream. [EntityEmit e] is the call of
    [emit(outfile)] on entity [e]; the text it writes is produced by another
    file of the target. *)
Inductive io_event :=
| Stdout (text : string)
| OfstreamOpen (fname : string)
| EntityEmit (e : vhdl_entity)
| OfstreamClose.

(** [std::map<ivl_signal_t, signal_defn_t>] *)
Abbreviation signal_defn_map_t := (gmap ivl_signal_t signal_defn_t).

Record state := {
  g_errors : Z;                     (* Total number of errors encountered *)
  g_entities : entity_list_t;       (* All entities to emit *)
  g_known_signals : signal_defn_map_t;
  io_log : list io_event
}.

(** The state the static initialisers give when the module is loaded. *)
Definition initial_state : state :=
  {| g_errors := 0; g_entities := []; g_known_signals := ∅; io_log := [] |}.

Definition with_errors (n : Z) (s : state) : state :=
  {| g_errors := n; g_entities := g_entities s;
     g_known_signals := g_known_signals s; io_log := io_log s |}.

Definition with_entities (l : entity_list_t) (s : state) : state :=
  {| g_errors := g_errors s; g_entities := l;
     g_known_signals := g_known_signals s; io_log := io_log s |}.

Definition with_known_signals (m : signal_defn_map_t) (s : state) : state :=
  {| g_errors := g_errors s; g_entities := g_entities s;
     g_known_signals := m; io_log := io_log s |}.

Definition with_io (l : list io_event) (s : state) : state :=
  {| g_errors := g_errors s; g_entities := g_entities s;
     g_known_signals := g_known_signals s; io_log := l |}.

(** ** The monad *)

Inductive outcome (A : Type) : Type :=
| Ok (a : A) (s : state)   (* the call returns [a] in state [s] *)
| AssertFail               (* an [assert] failed: the process aborts *)
| Undefined.               (* signed overflow of an [int] *)

Arguments Ok {A} a s.
Arguments AssertFail {A}.
Arguments Undefined {A}.

Definition M (A : Type) : Type := state → outcome A.

Global Instance M_ret : MRet M := λ A a s, Ok a s.

Global Instance M_bind : MBind M := λ A B f m s,
  match m s with
  | Ok a s' => f a s'
  | AssertFail => AssertFail
  | Undefined => Undefined
  end.

Definition get : M state := λ s, Ok s s.
Definition modify (f : state → state) : M unit := λ s, Ok tt (f s).
Definition abort {A : Type} : M A := λ _, AssertFail.
Definition undefined {A : Type} : M A := λ _, Undefined.
Definition assert (b : bool) : M unit :=
  if b then mret tt else abort.
Definition print (ev : io_event) : M unit :=
  modify (λ s, with_io (io_log s ++ [ev]) s).

(** ** Constants of the platform *)

(** [g_errors] is an [int]. Incrementing it at [INT_MAX] is a signed
    overflow, for which C++ defines no behaviour. *)
Definition INT_MAX : Z := 2147483647.

Definition newline : string := String (Ascii.ascii_of_nat 10) EmptyString.

(** ** The functions of [vhdl.cc] *)

Section Core.

(** [ivl_signal_basename], from the compiler core's API. *)
Variable ivl_signal_basename : ivl_signal_t → string.

(** Called when an unrecoverable problem is encountered. [msg] is the
    message after [vprintf] has formatted it. *)
Definition error (msg : string) : M unit :=
  print (Stdout "VHDL conversion error: ");;
  print (Stdout msg);;
  print (Stdout newline);;
  s ← get;
  if decide (g_errors s < INT_MAX)
  then modify (with_errors (g_errors s + 1))
  else undefined.

(** The loop of [find_entity] over the list. *)
Fixpoint find_entity_in (l : entity_list_t) (tname : string) : entity_ptr :=
  match l with
  | [] => NULL
  | e :: l' => if decide (get_name e = tname) then Some e
               else find_entity_in l' tname
  end.

(** Find an entity given a type name. *)
Definition find_entity (tname : string) : M entity_ptr :=
  s ← get; mret (find_entity_in (g_entities s) tname).

(** Add an entity/architecture pair to the list of entities to emit. *)
Definition remember_entity (e : vhdl_entity) : M unit :=
  found ← find_entity (get_name e);
  assert (bool_decide (found = NULL));;
  modify (λ s, with_entities (g_entities s ++ [e]) s).

(** Remember the association of signal to entity. *)
Definition remember_signal (sig : ivl_signal_t) (e : entity_ptr) : M unit :=
  s ← get;
  assert (bool_decide (g_known_signals s !! sig = None));;
  let defn := {| renamed := ivl_signal_basename sig; ent := e |} in
  modify (with_known_signals (<[sig := defn]> (g_known_signals s))).

(** Change the VHDL name of a Verilog signal. *)
Definition rename_signal (sig : ivl_signal_t) (new_name : string) : M unit :=
  s ← get;
  match g_known_signals s !! sig with
  | None => abort
  | Some defn =>
      modify (with_known_signals
                (<[sig := {| renamed := new_name; ent := ent defn |}]>
                   (g_known_signals s)))
  end.

Definition find_entity_for_signal (sig : ivl_signal_t) : M entity_ptr :=
  s ← get;
  match g_known_signals s !! sig with
  | None => abort
  | Some defn => mret (ent defn)
  end.

Definition get_renamed_signal (sig : ivl_signal_t) : M string :=
  s ← get;
  match g_known_signals s !! sig with
  | None => abort
  | Some defn => mret (renamed defn)
  end.

End Core.

(** ** The traversal *)

(** Modelled from the spec: [draw_scope] and [draw_process] live in other
    files of the target. The three globals are [static], so the traversal
    reaches them only by calling into the Entity Registry, the Signal
    Identity Map and the Diagnostic Sink. One execution of the traversal is
    therefore the sequence of calls it makes into this file. *)
Inductive call :=
| call_error (msg : string)
| call_find_entity (tname : string)
| call_remember_entity (e : vhdl_entity)
| call_remember_signal (sig : ivl_signal_t) (e : entity_ptr)
| call_rename_signal (sig : ivl_signal_t) (new_name : string)
| call_find_entity_for_signal (sig : ivl_signal_t)
| call_get_renamed_signal (sig : ivl_signal_t).

(** What [target_design] reads from its [ivl_design_t] argument. *)
Record ivl_design_t := {
  (* for each root scope, in order, the calls [draw_scope] makes on it *)
  design_roots : list (list call);
  (* the calls made under [ivl_design_process(des, draw_process, NULL)] *)
  design_process : list call;
  (* [ivl_design_flag(des, "-o")] *)
  design_flag_o : string
}.

Definition design_calls (des : ivl_design_t) : list call :=
  concat (design_roots des) ++ design_process des.

(** The number of [error] calls in a trace. *)
Fixpoint reported (l : list call) : Z :=
  match l with
  | [] => 0
  | call_error _ :: l' => 1 + reported l'
  | _ :: l' => reported l'
  end.

(** The entities handed to [remember_entity] in a trace, in call order. *)
Fixpoint remembered (l : list call) : list vhdl_entity :=
  match l with
  | [] => []
  | call_remember_entity e :: l' => e :: remembered l'
  | _ :: l' => remembered l'
  end.

(** What a trace prints on standard output. *)
Fixpoint printed (l : list call) : list io_event :=
  match l with
  | [] => []
  | call_error msg :: l' =>
      Stdout "VHDL conversion error: " :: Stdout msg :: Stdout newline
      :: printed l'
  | _ :: l' => printed l'
  end.

Definition is_rename_of (sig : ivl_signal_t) (c : call) : bool :=
  match c with
  | call_rename_signal sig' _ => bool_decide (sig' = sig)
  | _ => false
  end.

Definition is_remember_of (sig : ivl_signal_t) (c : call) : bool :=
  match c with
  | call_remember_signal sig' _ => bool_decide (sig' = sig)
  | _ => false
  end.

(** The events of a log that concern the output file. *)
Definition is_file_event (ev : io_event) : bool :=
  match ev with
  | Stdout _ => false
  | _ => true
  end.

Definition file_events (log : list io_event) : list io_event :=
  List.filter is_file_event log.

Fixpoint for_each {A : Type} (f : A → M unit) (l : list A) : M unit :=
  match l with
  | [] => mret tt
  | x :: l' => f x;; for_each f l'
  end.

Section Driver.

Variable ivl_signal_basename : ivl_signal_t → string.

Definition do_call (c : call) : M unit :=
  match c with
  | call_error msg => error msg
  | call_find_entity tname => find_entity tname;; mret tt
  | call_remember_entity e => remember_entity e
  | call_remember_signal sig e => remember_signal ivl_signal_basename sig e
  | call_rename_signal sig new_name => rename_signal sig new_name
  | call_find_entity_for_signal sig => find_entity_for_signal sig;; mret tt
  | call_get_renamed_signal sig => get_renamed_signal sig;; mret tt
  end.

Definition run (l : list call) : M unit := for_each do_call l.

(** [draw_scope(roots[i], NULL)]: the calls made for one root scope. Its
    [int] result is ignored by [target_design]. *)
Definition draw_scope (root : list call) : M unit := run root.

(** [ivl_design_process(des, draw_process, NULL)]: the calls made while the
    processes are drawn. Its [int] result is ignored too. *)
Definition ivl_design_process (des : ivl_design_t) : M unit :=
  run (design_process des).

(** The call of [emit(outfile)] on one element of the list. *)
Definition emit (e : vhdl_entity) : M unit := print (EntityEmit e).

(** The entry point. The loop of [delete] over the list releases heap
    memory, which the state does not track; [g_entities.clear()] follows. *)
Definition target_design (des : ivl_design_t) : M Z :=
  for_each draw_scope (design_roots des);;
  ivl_design_process des;;
  (* Write the generated elements to the output file
     only if there are no errors *)
  s ← get;
  (if decide (0 = g_errors s) then
     print (OfstreamOpen (design_flag_o des));;
     for_each emit (g_entities s);;
     print OfstreamClose
   else mret tt);;
  (* Clean up *)
  modify (with_entities []);;
  s' ← get;
  mret (g_errors s').

End Driver.

(** Concrete data used to exercise the definitions. *)

Definition basename_of (sig : ivl_signal_t) : string :=
  if decide (sig = 1%N) then "clk" else "q".

Definition ent_top : vhdl_entity := {| ent_addr := 16%N; ent_name := "top" |}.
Definition ent_sub : vhdl_entity := {| ent_addr := 32%N; ent_name := "sub" |}.
Definition ent_top' : vhdl_entity := {| ent_addr := 48%N; ent_name := "top" |}.

Definition clean_design : ivl_design_t :=
  {| design_roots :=
       [[call_remember_entity ent_top;
         call_remember_signal 1%N (Some ent_top);
         call_find_entity "sub";
         call_remember_entity ent_sub;
         call_remember_signal 2%N (Some ent_sub)]];
     design_process :=
       [call_find_entity_for_signal 2%N;
        call_rename_signal 2%N "q_reg";
        call_get_renamed_signal 2%N];
     design_flag_o := "out.vhd" |}.

Definition failing_design : ivl_design_t :=
  {| design_roots :=
       [[call_remember_entity ent_top;
         call_remember_signal 1%N (Some ent_top)]];
     design_process := [call_error "unsupported construct"];
     design_flag_o := "out.vhd" |}.

Definition empty_design : ivl_design_t :=
  {| design_roots := []; design_process := []; design_flag_o := "out.vhd" |}.

Definition second_design : ivl_design_t :=
  {| design_roots := [[call_remember_entity ent_sub]];
     design_process := [];
     design_flag_o := "out.vhd" |}.

Definition signal_clk : signal_defn_t :=
  {| renamed := "clk"; ent := Some ent_top |}.

Definition error_text : list io_event :=
  [Stdout "VHDL conversion error: "; Stdout "unsupported construct";
   Stdout newline].

(** The state when the traversal of [clean_design] has returned. *)
Definition clean_traversed : state :=
  {| g_errors := 0;
     g_entities := [ent_top; ent_sub];
     g_known_signals :=
       <[2%N := {| renamed := "q_reg"; ent := Some ent_sub |}]>
         {[1%N := signal_clk]};
     io_log := [] |}.

(** The states when the traversal of [failing_design] has returned, and
    when [target_design] has returned on it. *)
Definition failing_traversed : state :=
  {| g_errors := 1;
     g_entities := [ent_top];
     g_known_signals := {[1%N := signal_clk]};
     io_log := error_text |}.

Definition failing_finished : state :=
  {| g_errors := 1;
     g_entities := [];
     g_known_signals := {[1%N := signal_clk]};
     io_log := error_text |}.

(** The states of a run of [second_design] that follows the run of
    [failing_design] in the same process. *)
Definition second_traversed : state :=
  {| g_errors := 1;
     g_entities := [ent_sub];
     g_known_signals := {[1%N := signal_clk]};
     io_log := error_text |}.

Definition second_finished : state := failing_finished.

(** The state when [clk] has been registered in the initial state. *)
Definition clk_registered : state :=
  {| g_errors := 0;
     g_entities := [];
     g_known_signals := {[1%N := signal_clk]};
     io_log := [] |}.

(** The state when [target_design] has returned on [clean_design]. *)
Definition clean_finished : state :=
  {| g_errors := 0;
     g_entities := [];
     g_known_signals := g_known_signals clean_traversed;
     io_log := [OfstreamOpen "out.vhd"; EntityEmit ent_top;
                EntityEmit ent_sub; OfstreamClose] |}.

(** A traversal that registers [top] and its signal [clk], and the state
    it leaves. *)
Definition register_top : list call :=
  [call_remember_entity ent_top; call_remember_signal 1%N (Some ent_top)].

Definition top_registered : state :=
  {| g_errors := 0;
     g_entities := [ent_top];
     g_known_signals := {[1%N := signal_clk]};
     io_log := [] |}.

(** The name given by the last [rename_signal] of [sig] in a trace, when
    the trace has one. *)
Fixpoint last_rename (sig : ivl_signal_t) (l : list call) : option string :=
  match l with
  | [] => None
  | c :: l' =>
      match last_rename sig l' with
      | Some n => Some n
      | None =>
          match c with
          | call_rename_signal sig' n =>
              if decide (sig' = sig) then Some n else None
          | _ => None
          end
      end
  end.

(** A state whose error counter cannot be incremented any more. *)
Definition counter_full : state := with_errors INT_MAX initial_state.

(** A traversal that mixes calls on two entities and two signals, and the
    state it leaves when it starts in the initial state. *)
Definition later_calls : list call :=
  [call_rename_signal 1%N "a";
   call_remember_entity ent_sub;
   call_remember_signal 2%N (Some ent_sub);
   call_rename_signal 2%N "q_reg";
   call_error "unsupported construct";
   call_rename_signal 1%N "clk_i";
   call_get_renamed_signal 1%N].

Definition mixed_calls : list call := register_top ++ later_calls.

Definition mixed_done : state :=
  {| g_errors := 1;
     g_entities := [ent_top; ent_sub];
     g_known_signals :=
       <[2%N := {| renamed := "q_reg"; ent := Some ent_sub |}]>
         {[1%N := {| renamed := "clk_i"; ent := Some ent_top |}]};
     io_log := error_text |}.

(** A design whose traversal registers two entities named [top]. *)
Definition clashing_design : ivl_design_t :=
  {| design_roots := [[call_remember_entity ent_top];
                      [call_remember_entity ent_top']];
     design_process := [];
     design_flag_o := "out.vhd" |}.

(** ** Runs in one process *)

(** The states in which a run of [target_design] can start: the state the
    module is loaded with, and the state a run that returned has left. *)
Inductive run_start (base : ivl_signal_t → string) : state → Prop :=
| run_start_loaded : run_start base initial_state
| run_start_again des s r st :
    run_start base s →
    target_design base des s = Ok r st →
    run_start base st.

(** The states a process can be in after zero or more further runs that
    returned, starting from a given state. *)
Inductive later_run (base : ivl_signal_t → string) : state → state → Prop :=
| later_run_same s : later_run base s s
| later_run_next des s s' r st :
    later_run base s s' →
    target_design base des s' = Ok r st →
    later_run base s st.

(** ** Equations of the functions *)

Ltac unfold_monad :=
  unfold print, modify, get, assert, abort, undefined, mbind, M_bind,
    mret, M_ret.

Lemma bind_eq {A B : Type} (m : M A) (f : A → M B) s :
  (m ≫= f) s =
  match m s with
  | Ok a s1 => f a s1
  | AssertFail => AssertFail
  | Undefined => Undefined
  end.
Proof. reflexivity. Qed.

Section Equations.

Variable base : ivl_signal_t → string.

Lemma error_eq msg s :
  error msg s =
  if decide (g_errors s < INT_MAX)
  then Ok tt {| g_errors := g_errors s + 1;
                g_entities := g_entities s;
                g_known_signals := g_known_signals s;
                io_log := io_log s ++ [Stdout "VHDL conversion error: ";
                                       Stdout msg; Stdout newline] |}
  else Undefined.
Proof.
  unfold error, with_io, with_errors. unfold_monad. cbn.
  destruct (decide _); [|reflexivity].
  cbn. by rewrite <- !app_assoc.
Qed.

Lemma find_entity_eq tname s :
  find_entity tname s = Ok (find_entity_in (g_entities s) tname) s.
Proof. reflexivity. Qed.

Lemma remember_entity_eq e s :
  remember_entity e s =
  match find_entity_in (g_entities s) (get_name e) with
  | None => Ok tt (with_entities (g_entities s ++ [e]) s)
  | Some _ => AssertFail
  end.
Proof.
  unfold remember_entity, find_entity. unfold_monad.
  by destruct (find_entity_in _ _).
Qed.

Lemma remember_signal_eq sig e s :
  remember_signal base sig e s =
  match g_known_signals s !! sig with
  | None =>
      Ok tt (with_known_signals
               (<[sig := {| renamed := base sig; ent := e |}]>
                  (g_known_signals s)) s)
  | Some _ => AssertFail
  end.
Proof.
  unfold remember_signal. unfold_monad.
  by destruct (g_known_signals s !! sig).
Qed.

Lemma rename_signal_eq sig n s :
  rename_signal sig n s =
  match g_known_signals s !! sig with
  | None => AssertFail
  | Some d =>
      Ok tt (with_known_signals
               (<[sig := {| renamed := n; ent := ent d |}]>
                  (g_known_signals s)) s)
  end.
Proof.
  unfold rename_signal. unfold_monad.
  by destruct (g_known_signals s !! sig).
Qed.

Lemma find_entity_for_signal_eq sig s :
  find_entity_for_signal sig s =
  match g_known_signals s !! sig with
  | None => AssertFail
  | Some d => Ok (ent d) s
  end.
Proof.
  unfold find_entity_for_signal. unfold_monad.
  by destruct (g_known_signals s !! sig).
Qed.

Lemma get_renamed_signal_eq sig s :
  get_renamed_signal sig s =
  match g_known_signals s !! sig with
  | None => AssertFail
  | Some d => Ok (renamed d) s
  end.
Proof.
  unfold get_renamed_signal. unfold_monad.
  by destruct (g_known_signals s !! sig).
Qed.

Lemma run_nil s : run base [] s = Ok tt s.
Proof. reflexivity. Qed.

Lemma run_cons c l s :
  run base (c :: l) s =
  match do_call base c s with
  | Ok _ s1 => run base l s1
  | AssertFail => AssertFail
  | Undefined => Undefined
  end.
Proof. reflexivity. Qed.

Lemma run_app l1 l2 s :
  run base (l1 ++ l2) s =
  match run base l1 s with
  | Ok _ s1 => run base l2 s1
  | AssertFail => AssertFail
  | Undefined => Undefined
  end.
Proof.
  revert s. induction l1 as [|c l1 IH]; intros s; [reflexivity|].
  rewrite <- app_comm_cons, !run_cons.
  destruct (do_call base c s); auto.
Qed.

Lemma for_each_draw_scope roots s :
  for_each (draw_scope base) roots s = run base (concat roots) s.
Proof.
  revert s. induction roots as [|r roots IH]; intros s; [reflexivity|].
  cbn [for_each concat]. rewrite run_app. unfold_monad. unfold draw_scope.
  destruct (run base r s); auto.
Qed.

Lemma for_each_emit ents s :
  for_each emit ents s = Ok tt (with_io (io_log s ++ (EntityEmit <$> ents)) s).
Proof.
  revert s. induction ents as [|e ents IH]; intros s.
  - cbn. unfold with_io. rewrite app_nil_r. by destruct s.
  - change (for_each emit (e :: ents) s)
      with (for_each emit ents (with_io (io_log s ++ [EntityEmit e]) s)).
    rewrite IH. unfold with_io. cbn. by rewrite <- app_assoc.
Qed.

(** What one call that returns has done to the state. *)
Lemma do_call_inv c s u s1 :
  do_call base c s = Ok u s1 →
  match c with
  | call_error msg =>
      g_errors s < INT_MAX ∧
      s1 = {| g_errors := g_errors s + 1;
              g_entities := g_entities s;
              g_known_signals := g_known_signals s;
              io_log := io_log s ++ [Stdout "VHDL conversion error: ";
                                     Stdout msg; Stdout newline] |}
  | call_find_entity _ => s1 = s
  | call_remember_entity e =>
      find_entity_in (g_entities s) (get_name e) = None ∧
      s1 = with_entities (g_entities s ++ [e]) s
  | call_remember_signal sig e =>
      g_known_signals s !! sig = None ∧
      s1 = with_known_signals
             (<[sig := {| renamed := base sig; ent := e |}]>
                (g_known_signals s)) s
  | call_rename_signal sig n =>
      ∃ d, g_known_signals s !! sig = Some d ∧
           s1 = with_known_signals
                  (<[sig := {| renamed := n; ent := ent d |}]>
                     (g_known_signals s)) s
  | call_find_entity_for_signal sig
  | call_get_renamed_signal sig =>
      is_Some (g_known_signals s !! sig) ∧ s1 = s
  end.
Proof.
  destruct c; cbn [do_call]; intros H.
  - rewrite error_eq in H. destruct (decide _); [|discriminate].
    split; [done|]. by injection H as <-.
  - rewrite bind_eq, find_entity_eq in H. by injection H as <-.
  - rewrite remember_entity_eq in H.
    destruct (find_entity_in _ _); [discriminate|].
    split; [done|]. by injection H as <-.
  - rewrite remember_signal_eq in H.
    destruct (g_known_signals s !! sig); [discriminate|].
    split; [done|]. by injection H as <-.
  - rewrite rename_signal_eq in H.
    destruct (g_known_signals s !! sig) as [d|]; [|discriminate].
    exists d. split; [done|]. by injection H as <-.
  - rewrite bind_eq, find_entity_for_signal_eq in H.
    destruct (g_known_signals s !! sig); [|discriminate].
    split; [done|]. by injection H as <-.
  - rewrite bind_eq, get_renamed_signal_eq in H.
    destruct (g_known_signals s !! sig); [|discriminate].
    split; [done|]. by injection H as <-.
Qed.

End Equations.

(** ** Facts about lists of entities, traces and logs *)

Lemma find_entity_in_None l tname :
  find_entity_in l tname = None ↔ tname ∉ get_name <$> l.
Proof.
  induction l as [|e l IH]; cbn.
  - split; [intros _; apply not_elem_of_nil | done].
  - rewrite not_elem_of_cons. destruct (decide (get_name e = tname)).
    + split; [discriminate | intros [? _]; congruence].
    + rewrite IH. split; [intros ?; split; congruence | tauto].
Qed.

Lemma find_entity_in_Some l tname e :
  find_entity_in l tname = Some e → e ∈ l ∧ get_name e = tname.
Proof.
  induction l as [|e' l IH]; cbn; [discriminate|].
  destruct (decide (get_name e' = tname)).
  - intros [= <-]. split; [apply list_elem_of_here | done].
  - intros H. destruct (IH H). split; [by apply list_elem_of_further | done].
Qed.

Lemma find_entity_in_unique l e :
  NoDup (get_name <$> l) → e ∈ l →
  find_entity_in l (get_name e) = Some e.
Proof.
  induction l as [|e' l IH]; cbn; intros Hnd Hin.
  - by apply elem_of_nil in Hin.
  - apply NoDup_cons in Hnd as [Hfresh Hnd].
    apply elem_of_cons in Hin as [->|Hin].
    + by rewrite decide_True.
    + rewrite decide_False; [by apply IH|].
      intros Heq. apply Hfresh. rewrite Heq.
      by apply list_elem_of_fmap_2.
Qed.

Lemma NoDup_names l : NoDup (get_name <$> l) → NoDup l.
Proof. apply (NoDup_fmap_1 get_name). Qed.

Lemma reported_nonneg l : 0 ≤ reported l.
Proof. induction l as [|[] l IH]; cbn [reported]; lia. Qed.

Lemma file_events_app l1 l2 :
  file_events (l1 ++ l2) = file_events l1 ++ file_events l2.
Proof. apply List.filter_app. Qed.

Lemma file_events_printed l : file_events (printed l) = [].
Proof. induction l as [|[] l IH]; cbn; auto. Qed.

Lemma file_events_emit ents :
  file_events ((EntityEmit <$> ents)) = (EntityEmit <$> ents).
Proof. induction ents as [|e ents IH]; cbn; [done|]. by f_equal. Qed.

(** ** Invariants of a traversal *)

Section Runs.

Variable base : ivl_signal_t → string.

Ltac run_induction l :=
  let c := fresh "c" in
  let IH := fresh "IH" in
  let s := fresh "s" in
  let s' := fresh "s'" in
  let H := fresh "Hrun" in
  let E := fresh "Ecall" in
  induction l as [|c l IH]; intros s;
  [ rewrite run_nil; intros [= <-]
  | rewrite run_cons;
    destruct (do_call base c s) as [[] s'| |] eqn:E;
    [ apply do_call_inv in E | discriminate | discriminate ];
    intros H ].

Lemma run_errors l : ∀ s s1,
  run base l s = Ok tt s1 → g_errors s1 = g_errors s + reported l.
Proof.
  intros s s1; revert s. run_induction l; [cbn; lia|].
  rewrite (IH _ Hrun).
  destruct c; cbn [reported]; destruct_and?; try destruct Ecall as (?&?&?);
    subst; cbn; lia.
Qed.

Lemma run_entities l : ∀ s s1,
  run base l s = Ok tt s1 → g_entities s1 = g_entities s ++ remembered l.
Proof.
  intros s s1; revert s. run_induction l; [by rewrite app_nil_r|].
  rewrite (IH _ Hrun).
  destruct c; cbn [remembered]; destruct_and?; try destruct Ecall as (?&?&?);
    subst; cbn; try done.
  by rewrite <- app_assoc.
Qed.

Lemma run_io l : ∀ s s1,
  run base l s = Ok tt s1 → io_log s1 = io_log s ++ printed l.
Proof.
  intros s s1; revert s. run_induction l; [by rewrite app_nil_r|].
  rewrite (IH _ Hrun).
  destruct c; cbn [printed]; destruct_and?; try destruct Ecall as (?&?&?);
    subst; cbn; try done.
  by rewrite <- app_assoc.
Qed.

Lemma run_names_nodup l : ∀ s s1,
  run base l s = Ok tt s1 →
  NoDup (get_name <$> g_entities s) → NoDup (get_name <$> g_entities s1).
Proof.
  intros s s1; revert s. run_induction l; [done|].
  intros Hnd. apply (IH _ Hrun).
  destruct c; destruct_and?; try destruct Ecall as (?&?&?); subst; cbn;
    try done.
  rewrite fmap_app. cbn. apply NoDup_app. split; [done|]. split.
  - intros x Hx Hx'. apply list_elem_of_singleton in Hx'. subst x.
    by apply find_entity_in_None in H.
  - apply NoDup_singleton.
Qed.

Lemma run_signal_kept l sig : ∀ s s1,
  run base l s = Ok tt s1 →
  ∀ d, g_known_signals s !! sig = Some d →
  ∃ d', g_known_signals s1 !! sig = Some d' ∧ ent d' = ent d.
Proof.
  intros s s1; revert s. run_induction l; intros d Hd; [by exists d|].
  destruct c; destruct_and?; try destruct Ecall as (d0&?&?); subst;
    try (by apply (IH _ Hrun d)).
  - apply (IH _ Hrun d). cbn. rewrite lookup_insert_ne; [done|congruence].
  - destruct (decide (sig0 = sig)) as [->|Hne].
    + destruct (IH _ Hrun {| renamed := new_name; ent := ent d0 |})
        as (d'&?&?); [cbn; by rewrite lookup_insert_eq|].
      exists d'. split; [done|]. cbn in *. congruence.
    + apply (IH _ Hrun d). cbn. by rewrite lookup_insert_ne.
Qed.

Lemma run_signal_unrenamed l sig : ∀ s s1,
  run base l s = Ok tt s1 →
  ∀ d, forallb (λ c, negb (is_rename_of sig c)) l = true →
  g_known_signals s !! sig = Some d →
  g_known_signals s1 !! sig = Some d.
Proof.
  intros s s1; revert s. run_induction l; intros d Hall Hd; [done|].
  cbn [forallb] in Hall. apply andb_true_iff in Hall as [Hc Hall].
  apply (IH _ Hrun d Hall).
  destruct c; destruct_and?; try destruct Ecall as (d0&?&?); subst;
    try done; cbn.
  - rewrite lookup_insert_ne; [done|congruence].
  - cbn in Hc. apply negb_true_iff, bool_decide_eq_false in Hc.
    by rewrite lookup_insert_ne.
Qed.

Lemma run_signal_unregistered l sig : ∀ s s1,
  run base l s = Ok tt s1 →
  forallb (λ c, negb (is_remember_of sig c)) l = true →
  g_known_signals s !! sig = None →
  g_known_signals s1 !! sig = None.
Proof.
  intros s s1; revert s. run_induction l; intros Hall Hd; [done|].
  cbn [forallb] in Hall. apply andb_true_iff in Hall as [Hc Hall].
  apply (IH _ Hrun Hall).
  destruct c; destruct_and?; try destruct Ecall as (d0&?&?); subst;
    try done; cbn.
  - cbn in Hc. apply negb_true_iff, bool_decide_eq_false in Hc.
    by rewrite lookup_insert_ne.
  - rewrite lookup_insert_ne; [done|congruence].
Qed.

Lemma run_remember_registered l sig : ∀ s s1,
  run base l s = Ok tt s1 →
  existsb (is_remember_of sig) l = true →
  is_Some (g_known_signals s1 !! sig).
Proof.
  intros s s1; revert s. run_induction l; intros Hex; [discriminate|].
  cbn [existsb] in Hex. apply orb_true_iff in Hex as [Hc|Hex];
    [|by apply (IH _ Hrun)].
  destruct c; try discriminate. cbn in Hc.
  apply bool_decide_eq_true in Hc as ->. destruct Ecall as [_ ->].
  destruct (run_signal_kept l sig _ _ Hrun {| renamed := base sig; ent := e |})
    as (d'&Hd'&_); [cbn; by rewrite lookup_insert_eq|].
  by exists d'.
Qed.

(** [target_design], once the traversal is summarised by its trace. *)
Lemma target_design_unfold des s :
  target_design base des s =
  match run base (design_calls des) s with
  | Ok _ s1 =>
      Ok (g_errors s1)
         {| g_errors := g_errors s1;
            g_entities := [];
            g_known_signals := g_known_signals s1;
            io_log :=
              if decide (0 = g_errors s1)
              then io_log s1 ++ OfstreamOpen (design_flag_o des)
                     :: (EntityEmit <$> g_entities s1) ++ [OfstreamClose]
              else io_log s1 |}
  | AssertFail => AssertFail
  | Undefined => Undefined
  end.
Proof.
  unfold target_design, design_calls.
  rewrite run_app, bind_eq, for_each_draw_scope.
  destruct (run base (concat (design_roots des)) s) as [[] s0| |]; try done.
  rewrite bind_eq. unfold ivl_design_process.
  destruct (run base (design_process des) s0) as [[] s1| |]; try done.
  rewrite bind_eq. cbn [get]. rewrite bind_eq.
  destruct (decide (0 = g_errors s1)).
  - unfold_monad. rewrite for_each_emit. unfold with_entities, with_io. cbn.
    do 2 f_equal. by rewrite <- !app_assoc.
  - reflexivity.
Qed.

Lemma run_start_inv s :
  run_start base s → g_entities s = [] ∧ 0 ≤ g_errors s.
Proof.
  induction 1 as [|des s r st _ [_ IH] Hrun]; [done|].
  rewrite target_design_unfold in Hrun.
  destruct (run base (design_calls des) s) as [[] s1| |] eqn:E;
    [|discriminate|discriminate].
  injection Hrun as <- <-. cbn. split; [done|].
  rewrite (run_errors _ _ _ E). pose proof (reported_nonneg (design_calls des)).
  lia.
Qed.

End Runs.

(** ** The run driver *)

Section DriverClaims.

Variable base : ivl_signal_t → string.

(** C1, as the code has it. Emission is gated on the error count, which is
    the count at the start of the run plus the errors the traversal
    reported. Every run whose traversal returns, returns too; the entities
    registered by the traversal are pairwise distinct; when the run started
    with a count of zero and the traversal reported no error, the output
    stream is opened, receives one [emit] per registered entity in
    registration order and is closed; when the traversal reported one error
    or more, or the run started with a count that was not zero, no operation
    at all is made on the output stream. *)
Theorem target_design_emission_gated des s s1 :
  run_start base s →
  run base (design_calls des) s = Ok tt s1 →
  NoDup (remembered (design_calls des)) ∧
  ∃ st,
    target_design base des s
      = Ok (g_errors s + reported (design_calls des)) st ∧
    (g_errors s = 0 → reported (design_calls des) = 0 →
       file_events (io_log st) =
         file_events (io_log s) ++
         OfstreamOpen (design_flag_o des)
           :: (EntityEmit <$> remembered (design_calls des))
           ++ [OfstreamClose]) ∧
    (0 < reported (design_calls des) →
       file_events (io_log st) = file_events (io_log s)) ∧
    (0 < g_errors s →
       file_events (io_log st) = file_events (io_log s)).
Proof.
  intros Hstart Hrun.
  destruct (run_start_inv base s Hstart) as [Hent Hge].
  pose proof (run_errors base _ _ _ Hrun) as He.
  pose proof (run_entities base _ _ _ Hrun) as Hl.
  pose proof (run_io base _ _ _ Hrun) as Hio.
  pose proof (reported_nonneg (design_calls des)) as Hpos.
  rewrite Hent in Hl. cbn in Hl.
  split.
  - apply NoDup_names. rewrite <- Hl.
    apply (run_names_nodup base _ _ _ Hrun). rewrite Hent. apply NoDup_nil_2.
  - rewrite target_design_unfold, Hrun, He. eexists. split; [reflexivity|].
    cbn [io_log].
    assert (Hquiet : file_events (io_log s1) = file_events (io_log s)).
    { by rewrite Hio, file_events_app, file_events_printed, app_nil_r. }
    split; [|split].
    + intros Hzero Hrep. rewrite decide_True by lia.
      rewrite file_events_app, Hquiet, Hl. cbn.
      by rewrite file_events_app, file_events_emit.
    + intros Hrep. by rewrite decide_False by lia.
    + intros Hold. by rewrite decide_False by lia.
Qed.

(** C4, as the code has it. Every run whose traversal returns, returns the
    error count of the process at that point: the count at the start of the
    run plus the errors the traversal reported, hence the errors of that run
    alone when the run started with a count of zero. The status is 0 exactly
    when the run operated on the output stream, and strictly positive
    exactly when it did not. *)
Theorem target_design_status des s s1 :
  run_start base s →
  run base (design_calls des) s = Ok tt s1 →
  ∃ r st,
    target_design base des s = Ok r st ∧
    r = g_errors s + reported (design_calls des) ∧
    (g_errors s = 0 → r = reported (design_calls des)) ∧
    (r = 0 ↔ file_events (io_log st) ≠ file_events (io_log s)) ∧
    (0 < r ↔ file_events (io_log st) = file_events (io_log s)).
Proof.
  intros Hstart Hrun.
  destruct (run_start_inv base s Hstart) as [_ Hge].
  pose proof (run_errors base _ _ _ Hrun) as He.
  pose proof (run_io base _ _ _ Hrun) as Hio.
  pose proof (reported_nonneg (design_calls des)) as Hpos.
  rewrite target_design_unfold, Hrun, He. eexists. eexists.
  split; [reflexivity|]. split; [done|]. split; [lia|].
  cbn [io_log].
  assert (Hquiet : file_events (io_log s1) = file_events (io_log s)).
  { by rewrite Hio, file_events_app, file_events_printed, app_nil_r. }
  destruct (decide (0 = g_errors s + reported (design_calls des)))
    as [Hz|Hnz].
  - assert (Hneq : file_events
        (io_log s1 ++ OfstreamOpen (design_flag_o des)
           :: (EntityEmit <$> g_entities s1) ++ [OfstreamClose])
        ≠ file_events (io_log s)).
    { rewrite file_events_app, Hquiet.
      intros Heq. apply (f_equal length) in Heq.
      rewrite length_app in Heq. cbn in Heq. lia. }
    split; split; intros ?; solve [done | lia | contradiction | congruence].
  - split; split; intros ?; solve [done | lia | contradiction | congruence].
Qed.

(** C2, as the code has it. When a run has returned, the entity registry is
    empty, but the error count and the signal map are not reset: the count
    still holds the returned status, which is the count at the start of the
    run plus the errors reported during it, and every signal registered
    before or during the run is still registered. A later run in the same
    process starts from that state. *)
Theorem target_design_leaves_state des s r st :
  target_design base des s = Ok r st →
  run_start base s →
  run_start base st ∧
  g_entities st = [] ∧
  g_errors st = r ∧
  r = g_errors s + reported (design_calls des) ∧
  ∀ sig,
    is_Some (g_known_signals s !! sig) ∨
    existsb (is_remember_of sig) (design_calls des) = true →
    is_Some (g_known_signals st !! sig).
Proof.
  intros Htd Hstart.
  split; [by apply (run_start_again base des s r st)|].
  rewrite target_design_unfold in Htd.
  destruct (run base (design_calls des) s) as [[] s1| |] eqn:Hrun;
    [|discriminate|discriminate].
  injection Htd as <- <-. cbn.
  split; [done|]. split; [done|].
  split; [apply (run_errors base _ _ _ Hrun)|].
  intros sig [[d Hd]|Hex].
  - destruct (run_signal_kept base _ sig _ _ Hrun d Hd) as (d'&Hd'&_).
    by exists d'.
  - by apply (run_remember_registered base _ sig _ _ Hrun).
Qed.

End DriverClaims.

(** ** The diagnostic sink, the entity registry and the signal map *)

Section RegistryClaims.

Variable base : ivl_signal_t → string.

(** C9, as the code has it. A call of [error] made while the counter is
    below [INT_MAX] returns, with the error count one higher, the message
    on standard output, and the entity registry and signal map as they
    were; no call of [error] ends in a failed assertion, and its behaviour
    is undefined only when the counter has reached [INT_MAX], where the
    increment overflows; and the error count never decreases along a
    traversal that returns. *)
Theorem error_increments :
  (∀ msg s,
     g_errors s < INT_MAX →
     error msg s =
     Ok tt {| g_errors := g_errors s + 1;
              g_entities := g_entities s;
              g_known_signals := g_known_signals s;
              io_log := io_log s ++ [Stdout "VHDL conversion error: ";
                                     Stdout msg; Stdout newline] |}) ∧
  (∀ msg s, error msg s ≠ AssertFail) ∧
  (∀ msg s, error msg s = Undefined ↔ INT_MAX ≤ g_errors s) ∧
  (∀ l s s1, run base l s = Ok tt s1 → g_errors s ≤ g_errors s1).
Proof.
  split; [|split; [|split]].
  - intros msg s Hlt. rewrite error_eq. by rewrite decide_True.
  - intros msg s. rewrite error_eq. by destruct (decide _).
  - intros msg s. rewrite error_eq.
    destruct (decide _); split; intros; solve [done | lia].
  - intros l s s1 Hrun. rewrite (run_errors base _ _ _ Hrun).
    pose proof (reported_nonneg l). lia.
Qed.

(** C7. [find_entity] always returns, leaves the state as it was, and its
    result is an entity of the registry with the name asked for, or [NULL]
    when the registry has no entity of that name; when an entity with that
    name is registered the result is not [NULL], and it is that very entity
    when the names in the registry are pairwise distinct. *)
Theorem find_entity_total s tname :
  ∃ r,
    find_entity tname s = Ok r s ∧
    match r with
    | Some e => e ∈ g_entities s ∧ get_name e = tname
    | None => ∀ e, e ∈ g_entities s → get_name e ≠ tname
    end ∧
    ∀ e, e ∈ g_entities s → get_name e = tname →
         r ≠ NULL ∧ (NoDup (get_name <$> g_entities s) → r = Some e).
Proof.
  exists (find_entity_in (g_entities s) tname).
  split; [apply find_entity_eq|]. split.
  - destruct (find_entity_in _ _) as [e|] eqn:E.
    + by apply find_entity_in_Some.
    + intros e Hin Hname. apply find_entity_in_None in E. apply E.
      rewrite <- Hname. by apply list_elem_of_fmap_2.
  - intros e Hin <-. split.
    + intros E. apply find_entity_in_None in E. apply E.
      by apply list_elem_of_fmap_2.
    + intros Hnd. by apply find_entity_in_unique.
Qed.

(** C5. After any traversal that has returned so far, registering an entity
    whose name is the name of an entity registered before or during it, and
    registering a signal registered before or during it, both end in a
    failed assertion: the process aborts, and no error is counted. *)
Theorem duplicate_registration_aborts l s s1 :
  run base l s = Ok tt s1 →
  (∀ e1 e2,
     e1 ∈ g_entities s ∨ e1 ∈ remembered l →
     get_name e2 = get_name e1 →
     remember_entity e2 s1 = AssertFail) ∧
  (∀ sig e,
     is_Some (g_known_signals s !! sig) ∨
     existsb (is_remember_of sig) l = true →
     remember_signal base sig e s1 = AssertFail).
Proof.
  intros Hrun. split.
  - intros e1 e2 Hin Hname. rewrite remember_entity_eq.
    destruct (find_entity_in _ _) eqn:E; [done|].
    apply find_entity_in_None in E. exfalso. apply E.
    rewrite Hname, (run_entities base _ _ _ Hrun).
    apply list_elem_of_fmap_2, elem_of_app. tauto.
  - intros sig e Hreg. rewrite remember_signal_eq.
    destruct Hreg as [[d Hd]|Hex].
    + by destruct (run_signal_kept base _ sig _ _ Hrun d Hd) as (d'&->&_).
    + by destruct (run_remember_registered base _ sig _ _ Hrun Hex) as [d ->].
Qed.

(** C6. A signal that is not registered when a traversal starts, and that
    the traversal does not register, cannot be looked up after it: both
    [find_entity_for_signal] and [get_renamed_signal] end in a failed
    assertion. *)
Theorem lookup_unregistered_aborts l s s1 sig :
  g_known_signals s !! sig = None →
  run base l s = Ok tt s1 →
  forallb (λ c, negb (is_remember_of sig c)) l = true →
  find_entity_for_signal sig s1 = AssertFail ∧
  get_renamed_signal sig s1 = AssertFail.
Proof.
  intros Hnone Hrun Hall.
  pose proof (run_signal_unregistered base _ sig _ _ Hrun Hall Hnone) as E.
  by rewrite find_entity_for_signal_eq, get_renamed_signal_eq, E.
Qed.

(** C8. Registering a signal that is not yet registered returns; right
    after it, and after any further calls that do not rename the signal,
    [get_renamed_signal] returns the signal's base name and
    [find_entity_for_signal] returns the entity given at registration. *)
Theorem remember_signal_defaults s sig e :
  g_known_signals s !! sig = None →
  ∃ s1,
    remember_signal base sig e s = Ok tt s1 ∧
    get_renamed_signal sig s1 = Ok (base sig) s1 ∧
    find_entity_for_signal sig s1 = Ok e s1 ∧
    ∀ l s2,
      run base l s1 = Ok tt s2 →
      forallb (λ c, negb (is_rename_of sig c)) l = true →
      get_renamed_signal sig s2 = Ok (base sig) s2 ∧
      find_entity_for_signal sig s2 = Ok e s2.
Proof.
  intros Hnone. rewrite remember_signal_eq, Hnone. eexists.
  split; [reflexivity|].
  rewrite get_renamed_signal_eq, find_entity_for_signal_eq. cbn.
  rewrite lookup_insert_eq. cbn. split; [done|]. split; [done|].
  intros l s2 Hrun Hall.
  rewrite get_renamed_signal_eq, find_entity_for_signal_eq.
  rewrite (run_signal_unrenamed base _ sig _ _ Hrun
             {| renamed := base sig; ent := e |} Hall); [done|].
  cbn. by rewrite lookup_insert_eq.
Qed.

(** C3. Registering a signal that is not yet registered and then renaming
    it both return; afterwards [get_renamed_signal] returns the new name
    and [find_entity_for_signal] still returns the entity given at
    registration. *)
Theorem rename_keeps_owner s sig e n :
  g_known_signals s !! sig = None →
  ∃ s1 s2,
    remember_signal base sig e s = Ok tt s1 ∧
    rename_signal sig n s1 = Ok tt s2 ∧
    get_renamed_signal sig s2 = Ok n s2 ∧
    find_entity_for_signal sig s2 = Ok e s2.
Proof.
  intros Hnone. rewrite remember_signal_eq, Hnone. eexists. eexists.
  split; [reflexivity|].
  rewrite rename_signal_eq. cbn. rewrite lookup_insert_eq.
  split; [reflexivity|].
  rewrite get_renamed_signal_eq, find_entity_for_signal_eq. cbn.
  by rewrite lookup_insert_eq.
Qed.

(** C10. Renaming a registered signal several times in a row returns; then
    [get_renamed_signal] returns the last name given, and the state is the
    very state that the last rename alone produces, so nothing in it
    depends on the earlier names. *)
Theorem last_rename_wins sig ns n : ∀ s,
  is_Some (g_known_signals s !! sig) →
  ∃ s2,
    run base (call_rename_signal sig <$> ns ++ [n]) s = Ok tt s2 ∧
    get_renamed_signal sig s2 = Ok n s2 ∧
    rename_signal sig n s = Ok tt s2.
Proof.
  induction ns as [|n1 ns IH]; intros s [d Hd].
  - cbn [app fmap list_fmap]. rewrite run_cons. cbn [do_call].
    rewrite rename_signal_eq, Hd. eexists. split; [reflexivity|].
    split; [|reflexivity].
    rewrite get_renamed_signal_eq. cbn. by rewrite lookup_insert_eq.
  - rewrite <- app_comm_cons, fmap_cons, run_cons. cbn [do_call].
    rewrite rename_signal_eq, Hd.
    edestruct IH as (s2&Hrun&Hget&Hlast);
      [|exists s2; split; [exact Hrun|split; [exact Hget|]]].
    + cbn. rewrite lookup_insert_eq. by eexists.
    + rewrite rename_signal_eq in Hlast. cbn in Hlast.
      rewrite lookup_insert_eq in Hlast. cbn in Hlast.
      rewrite insert_insert_eq in Hlast.
      by rewrite rename_signal_eq, Hd.
Qed.

End RegistryClaims.

(** ** The claims on concrete designs *)

Example find_entity_registered :
  find_entity "sub" clean_traversed = Ok (Some ent_sub) clean_traversed.
Proof. reflexivity. Qed.

Example find_entity_unknown :
  find_entity "alu" clean_traversed = Ok NULL clean_traversed.
Proof. reflexivity. Qed.

Example remember_entity_same_name :
  remember_entity ent_top' top_registered = AssertFail.
Proof. reflexivity. Qed.

Lemma run_start_failing_finished : run_start basename_of failing_finished.
Proof.
  apply (run_start_again basename_of failing_design initial_state 1);
    [apply run_start_loaded | vm_compute; reflexivity].
Qed.

(** C9 fails as stated: when the counter holds [INT_MAX], a call of [error]
    does not leave the count one higher; the increment of the [int]
    overflows, and the call has no defined result. *)
Lemma error_at_int_max :
  g_errors counter_full = INT_MAX ∧
  error "unsupported construct" counter_full = Undefined ∧
  error "unsupported construct" counter_full ≠
    Ok tt {| g_errors := g_errors counter_full + 1;
             g_entities := g_entities counter_full;
             g_known_signals := g_known_signals counter_full;
             io_log := io_log counter_full ++
                       [Stdout "VHDL conversion error: ";
                        Stdout "unsupported construct"; Stdout newline] |}.
Proof.
  split; [reflexivity|]. split; [reflexivity|].
  change (error "unsupported construct" counter_full) with (@Undefined unit).
  discriminate.
Qed.

(** C2 fails as stated: the run of [failing_design] in a fresh process
    returns 1 and leaves the error count at 1 and [clk] registered, and the
    run of [clean_design] in a fresh process returns 0 and leaves its two
    signals registered; the state a later run starts from is not reset. *)
Lemma target_design_not_reset :
  target_design basename_of failing_design initial_state
    = Ok 1 failing_finished ∧
  g_errors failing_finished = 1 ∧
  g_known_signals failing_finished !! 1%N = Some signal_clk ∧
  target_design basename_of clean_design initial_state
    = Ok 0 clean_finished ∧
  g_known_signals clean_finished !! 1%N = Some signal_clk ∧
  ¬ (g_entities failing_finished = [] ∧
     g_known_signals failing_finished = ∅ ∧
     g_errors failing_finished = 0).
Proof.
  repeat split; try (vm_compute; reflexivity).
  intros (_ & _ & H). discriminate H.
Qed.

(** C1 fails as stated: in the run of [second_design] that follows the run
    of [failing_design], the traversal reports no error and registers
    [sub], yet nothing is emitted. *)
Lemma second_run_emits_nothing :
  run_start basename_of failing_finished ∧
  run basename_of (design_calls second_design) failing_finished
    = Ok tt second_traversed ∧
  reported (design_calls second_design) = 0 ∧
  remembered (design_calls second_design) = [ent_sub] ∧
  target_design basename_of second_design failing_finished
    = Ok 1 second_finished ∧
  file_events (io_log second_finished) = [] ∧
  file_events (io_log second_finished) ≠
    file_events (io_log failing_finished) ++
    OfstreamOpen (design_flag_o second_design)
      :: (EntityEmit <$> remembered (design_calls second_design))
      ++ [OfstreamClose].
Proof.
  split; [apply run_start_failing_finished|].
  repeat split; try (vm_compute; reflexivity).
  vm_compute. discriminate.
Qed.

(** C4 fails as stated: in the run of [empty_design] that follows the run
    of [failing_design], no error is reported, yet the status is 1, the
    error of the earlier run. *)
Lemma second_run_status :
  run_start basename_of failing_finished ∧
  run basename_of (design_calls empty_design) failing_finished
    = Ok tt failing_finished ∧
  reported (design_calls empty_design) = 0 ∧
  target_design basename_of empty_design failing_finished
    = Ok 1 failing_finished ∧
  1 ≠ reported (design_calls empty_design).
Proof.
  split; [apply run_start_failing_finished|].
  repeat split; try (vm_compute; reflexivity).
  vm_compute. discriminate.
Qed.

(** The run of [clean_design] in a fresh process. *)
Lemma target_design_emission_gated_witness :
  run_start basename_of initial_state ∧
  run basename_of (design_calls clean_design) initial_state
    = Ok tt clean_traversed ∧
  (NoDup (remembered (design_calls clean_design)) ∧
   ∃ st,
     target_design basename_of clean_design initial_state
       = Ok (g_errors initial_state + reported (design_calls clean_design))
            st ∧
     (g_errors initial_state = 0 →
      reported (design_calls clean_design) = 0 →
        file_events (io_log st) =
          file_events (io_log initial_state) ++
          OfstreamOpen (design_flag_o clean_design)
            :: (EntityEmit <$> remembered (design_calls clean_design))
            ++ [OfstreamClose]) ∧
     (0 < reported (design_calls clean_design) →
        file_events (io_log st) = file_events (io_log initial_state)) ∧
     (0 < g_errors initial_state →
        file_events (io_log st) = file_events (io_log initial_state))).
Proof.
  split; [apply run_start_loaded|].
  split; [vm_compute; reflexivity|].
  apply (target_design_emission_gated basename_of clean_design initial_state
           clean_traversed);
    [apply run_start_loaded | vm_compute; reflexivity].
Defined.

(** The run of [failing_design] in a fresh process. *)
Lemma target_design_status_witness :
  run_start basename_of initial_state ∧
  run basename_of (design_calls failing_design) initial_state
    = Ok tt failing_traversed ∧
  ∃ r st,
    target_design basename_of failing_design initial_state = Ok r st ∧
    r = g_errors initial_state + reported (design_calls failing_design) ∧
    (g_errors initial_state = 0 →
       r = reported (design_calls failing_design)) ∧
    (r = 0 ↔ file_events (io_log st) ≠ file_events (io_log initial_state)) ∧
    (0 < r ↔ file_events (io_log st) = file_events (io_log initial_state)).
Proof.
  split; [apply run_start_loaded|].
  split; [vm_compute; reflexivity|].
  apply (target_design_status basename_of failing_design initial_state
           failing_traversed);
    [apply run_start_loaded | vm_compute; reflexivity].
Defined.

(** What the run of [failing_design] leaves behind. *)
Lemma target_design_leaves_state_witness :
  target_design basename_of failing_design initial_state
    = Ok 1 failing_finished ∧
  run_start basename_of initial_state ∧
  (run_start basename_of failing_finished ∧
   g_entities failing_finished = [] ∧
   g_errors failing_finished = 1 ∧
   1 = g_errors initial_state + reported (design_calls failing_design) ∧
   ∀ sig,
     is_Some (g_known_signals initial_state !! sig) ∨
     existsb (is_remember_of sig) (design_calls failing_design) = true →
     is_Some (g_known_signals failing_finished !! sig)).
Proof.
  split; [vm_compute; reflexivity|].
  split; [apply run_start_loaded|].
  apply (target_design_leaves_state basename_of failing_design initial_state
           1 failing_finished);
    [vm_compute; reflexivity | apply run_start_loaded].
Defined.

(** The first error of a process. *)
Lemma error_increments_witness :
  g_errors initial_state < INT_MAX ∧
  error "unsupported construct" initial_state =
  Ok tt {| g_errors := g_errors initial_state + 1;
           g_entities := g_entities initial_state;
           g_known_signals := g_known_signals initial_state;
           io_log := io_log initial_state ++
                     [Stdout "VHDL conversion error: ";
                      Stdout "unsupported construct"; Stdout newline] |}.
Proof.
  assert (H : g_errors initial_state < INT_MAX) by reflexivity.
  split; [exact H|].
  exact (proj1 (error_increments basename_of) "unsupported construct"
           initial_state H).
Defined.

(** Registering again after [register_top]. *)
Lemma duplicate_registration_aborts_witness :
  run basename_of register_top initial_state = Ok tt top_registered ∧
  ((∀ e1 e2,
      e1 ∈ g_entities initial_state ∨ e1 ∈ remembered register_top →
      get_name e2 = get_name e1 →
      remember_entity e2 top_registered = AssertFail) ∧
   (∀ sig e,
      is_Some (g_known_signals initial_state !! sig) ∨
      existsb (is_remember_of sig) register_top = true →
      remember_signal basename_of sig e top_registered = AssertFail)).
Proof.
  split; [vm_compute; reflexivity|].
  apply (duplicate_registration_aborts basename_of register_top initial_state
           top_registered).
  vm_compute; reflexivity.
Defined.

(** Looking up signal 2 after [register_top], which registers signal 1. *)
Lemma lookup_unregistered_aborts_witness :
  g_known_signals initial_state !! 2%N = None ∧
  run basename_of register_top initial_state = Ok tt top_registered ∧
  forallb (λ c, negb (is_remember_of 2%N c)) register_top = true ∧
  (find_entity_for_signal 2%N top_registered = AssertFail ∧
   get_renamed_signal 2%N top_registered = AssertFail).
Proof.
  split; [reflexivity|].
  split; [vm_compute; reflexivity|].
  split; [reflexivity|].
  apply (lookup_unregistered_aborts basename_of register_top initial_state
           top_registered 2%N);
    [reflexivity | vm_compute; reflexivity | reflexivity].
Defined.

(** Registering [clk] in a fresh process. *)
Lemma remember_signal_defaults_witness :
  g_known_signals initial_state !! 1%N = None ∧
  ∃ s1,
    remember_signal basename_of 1%N (Some ent_top) initial_state
      = Ok tt s1 ∧
    get_renamed_signal 1%N s1 = Ok (basename_of 1%N) s1 ∧
    find_entity_for_signal 1%N s1 = Ok (Some ent_top) s1 ∧
    ∀ l s2,
      run basename_of l s1 = Ok tt s2 →
      forallb (λ c, negb (is_rename_of 1%N c)) l = true →
      get_renamed_signal 1%N s2 = Ok (basename_of 1%N) s2 ∧
      find_entity_for_signal 1%N s2 = Ok (Some ent_top) s2.
Proof.
  split; [reflexivity|].
  apply (remember_signal_defaults basename_of initial_state 1%N
           (Some ent_top)).
  reflexivity.
Defined.

(** Registering signal 2 under [top] and renaming it. *)
Lemma rename_keeps_owner_witness :
  g_known_signals top_registered !! 2%N = None ∧
  ∃ s1 s2,
    remember_signal basename_of 2%N (Some ent_top) top_registered
      = Ok tt s1 ∧
    rename_signal 2%N "q_reg" s1 = Ok tt s2 ∧
    get_renamed_signal 2%N s2 = Ok "q_reg" s2 ∧
    find_entity_for_signal 2%N s2 = Ok (Some ent_top) s2.
Proof.
  split; [reflexivity|].
  apply (rename_keeps_owner basename_of top_registered 2%N (Some ent_top)
           "q_reg").
  reflexivity.
Defined.

(** Three renames of [clk] in a row. *)
Lemma last_rename_wins_witness :
  is_Some (g_known_signals clk_registered !! 1%N) ∧
  ∃ s2,
    run basename_of (call_rename_signal 1%N <$> ["a"; "b"] ++ ["c"])
      clk_registered = Ok tt s2 ∧
    get_renamed_signal 1%N s2 = Ok "c" s2 ∧
    rename_signal 1%N "c" clk_registered = Ok tt s2.
Proof.
  assert (H : is_Some (g_known_signals clk_registered !! 1%N))
    by (exists signal_clk; reflexivity).
  split; [exact H|].
  exact (last_rename_wins basename_of 1%N ["a"; "b"] "c" clk_registered H).
Defined.

(** ** Further properties of the registry, the signal map and the driver *)

Lemma last_rename_cons_other sig c l :
  is_rename_of sig c = false →
  last_rename sig (c :: l) = last_rename sig l.
Proof.
  intros Hc. cbn [last_rename]. destruct (last_rename sig l); [done|].
  destruct c; try done. cbn in Hc. apply bool_decide_eq_false in Hc.
  by rewrite decide_False.
Qed.

Section Traversals.

Variable base : ivl_signal_t → string.

(** One step of a traversal that returns. *)
Lemma run_cons_inv c l s s1 :
  run base (c :: l) s = Ok tt s1 →
  ∃ s', do_call base c s = Ok tt s' ∧ run base l s' = Ok tt s1.
Proof.
  rewrite run_cons.
  destruct (do_call base c s) as [[] s'| |]; [|discriminate|discriminate].
  intros H. by exists s'.
Qed.

Lemma do_call_run c s s' :
  do_call base c s = Ok tt s' → run base [c] s = Ok tt s'.
Proof. intros H. by rewrite run_cons, H. Qed.

(** The record of a registered signal when a traversal has returned. *)
Lemma run_signal_record l sig : ∀ s s1,
  run base l s = Ok tt s1 →
  ∀ d, g_known_signals s !! sig = Some d →
  g_known_signals s1 !! sig =
    Some {| renamed := default (renamed d) (last_rename sig l);
            ent := ent d |}.
Proof.
  induction l as [|c l IH]; intros s s1 Hrun d Hd.
  - rewrite run_nil in Hrun. injection Hrun as <-. by destruct d.
  - apply run_cons_inv in Hrun as (s'&Hc&Hrun).
    apply do_call_inv in Hc.
    destruct (is_rename_of sig c) eqn:Hren.
    + destruct c; try discriminate. cbn in Hren.
      apply bool_decide_eq_true in Hren as ->.
      destruct Hc as (d0&Hd0&->). rewrite Hd in Hd0. injection Hd0 as <-.
      rewrite (IH _ _ Hrun {| renamed := new_name; ent := ent d |});
        [|cbn; by rewrite lookup_insert_eq].
      cbn [last_rename renamed ent]. rewrite decide_True by done.
      by destruct (last_rename sig l).
    + rewrite last_rename_cons_other by done.
      apply (IH _ _ Hrun d).
      destruct c; destruct_and?; try destruct Hc as (d0&?&?); subst;
        try done; cbn.
      * rewrite lookup_insert_ne; [done|congruence].
      * cbn in Hren. apply bool_decide_eq_false in Hren.
        by rewrite lookup_insert_ne.
Qed.

(** Registering a registered signal again stops the traversal. *)
Lemma run_reregister_fails l sig : ∀ s,
  is_Some (g_known_signals s !! sig) →
  existsb (is_remember_of sig) l = true →
  ∀ s1, run base l s ≠ Ok tt s1.
Proof.
  induction l as [|c l IH]; intros s Hreg Hex s1 Hrun; [discriminate|].
  apply run_cons_inv in Hrun as (s'&Hc&Hrun).
  cbn [existsb] in Hex. apply orb_true_iff in Hex as [Hhere|Hlater].
  - destruct c; try discriminate. cbn in Hhere.
    apply bool_decide_eq_true in Hhere as ->.
    apply do_call_inv in Hc as [Hnone _]. rewrite Hnone in Hreg.
    by destruct Hreg.
  - refine (IH s' _ Hlater s1 Hrun). destruct Hreg as [d Hd].
    destruct (run_signal_kept base [c] sig s s' (do_call_run _ _ _ Hc) d Hd)
      as (d'&->&_).
    by eexists.
Qed.

(** X1. Renaming a signal that was not registered when the traversal
    started, and that the traversal has not registered, ends in a failed
    assertion. *)
Theorem rename_unregistered_aborts l s s1 sig n :
  g_known_signals s !! sig = None →
  run base l s = Ok tt s1 →
  forallb (λ c, negb (is_remember_of sig c)) l = true →
  rename_signal sig n s1 = AssertFail.
Proof.
  intros Hnone Hrun Hall.
  by rewrite rename_signal_eq,
    (run_signal_unregistered base _ sig _ _ Hrun Hall Hnone).
Qed.

(** X2. The owner of a registered signal never changes: whatever calls a
    traversal makes, when it has returned [find_entity_for_signal] returns
    the entity the record held before. *)
Theorem owner_never_changes l s s1 sig d :
  g_known_signals s !! sig = Some d →
  run base l s = Ok tt s1 →
  find_entity_for_signal sig s1 = Ok (ent d) s1.
Proof.
  intros Hd Hrun.
  by rewrite find_entity_for_signal_eq,
    (run_signal_record _ sig _ _ Hrun d Hd).
Qed.

(** X3. The name of a registered signal after a traversal is the name given
    by the last [rename_signal] of that signal in the traversal, whatever
    other calls are made in between, and the name it had before when the
    traversal does not rename it. *)
Theorem name_is_last_rename l s s1 sig d :
  g_known_signals s !! sig = Some d →
  run base l s = Ok tt s1 →
  get_renamed_signal sig s1
    = Ok (default (renamed d) (last_rename sig l)) s1.
Proof.
  intros Hd Hrun.
  by rewrite get_renamed_signal_eq, (run_signal_record _ sig _ _ Hrun d Hd).
Qed.

(** X4. During a run, [find_entity] finds exactly the entities registered so
    far: for each of them it returns that entity when asked for its name,
    and it returns [NULL] for every other name. *)
Theorem find_entity_after_run l s s1 :
  run_start base s →
  run base l s = Ok tt s1 →
  (∀ e, e ∈ remembered l → find_entity (get_name e) s1 = Ok (Some e) s1) ∧
  (∀ tname, tname ∉ get_name <$> remembered l →
            find_entity tname s1 = Ok NULL s1).
Proof.
  intros Hstart Hrun.
  destruct (run_start_inv base s Hstart) as [Hent _].
  pose proof (run_entities base _ _ _ Hrun) as Hl.
  pose proof (run_names_nodup base _ _ _ Hrun) as Hnd.
  rewrite Hent in Hl, Hnd. cbn in Hl.
  specialize (Hnd (NoDup_nil_2)). rewrite Hl in Hnd.
  split.
  - intros e Hin. rewrite find_entity_eq, Hl.
    by rewrite find_entity_in_unique.
  - intros tname Hnot. rewrite find_entity_eq, Hl.
    by apply find_entity_in_None in Hnot as ->.
Qed.

(** X5. During a run the registry holds the entities registered by the
    traversal so far, in the order of their registration, and no two of
    them have the same name. *)
Theorem registry_names_distinct l s s1 :
  run_start base s →
  run base l s = Ok tt s1 →
  g_entities s1 = remembered l ∧ NoDup (get_name <$> g_entities s1).
Proof.
  intros Hstart Hrun.
  destruct (run_start_inv base s Hstart) as [Hent _].
  split.
  - by rewrite (run_entities base _ _ _ Hrun), Hent.
  - apply (run_names_nodup base _ _ _ Hrun). rewrite Hent. apply NoDup_nil_2.
Qed.

End Traversals.

Lemma existsb_false_forallb {A : Type} (f : A → bool) l :
  existsb f l = false → forallb (λ x, negb (f x)) l = true.
Proof.
  induction l as [|x l IH]; cbn; [done|].
  intros [Hx Hl]%orb_false_iff. rewrite Hx. cbn. by apply IH.
Qed.

Section Runs_in_a_process.

Variable base : ivl_signal_t → string.

(** Runs that return never remove a signal from the map. *)
Lemma later_run_keeps_signal s s' sig :
  later_run base s s' →
  is_Some (g_known_signals s !! sig) →
  is_Some (g_known_signals s' !! sig).
Proof.
  induction 1 as [s|des s s' r st _ IH Htd]; intros Hreg; [done|].
  specialize (IH Hreg). destruct IH as [d Hd].
  rewrite target_design_unfold in Htd.
  destruct (run base (design_calls des) s') as [[] s1| |] eqn:Hrun;
    [|discriminate|discriminate].
  injection Htd as <- <-. cbn.
  destruct (run_signal_kept base _ sig _ _ Hrun d Hd) as (d'&->&_).
  by eexists.
Qed.

(** X6. [remember_entity] clashes on names, not on objects: it ends in a
    failed assertion exactly when some registered entity has the name of
    the new one, and otherwise it returns with the new entity appended at
    the back of the registry and nothing else changed. *)
Theorem remember_entity_aborts_iff e s :
  (remember_entity e s = AssertFail ↔
   get_name e ∈ get_name <$> g_entities s) ∧
  (get_name e ∉ get_name <$> g_entities s →
   remember_entity e s = Ok tt (with_entities (g_entities s ++ [e]) s)).
Proof.
  rewrite remember_entity_eq.
  destruct (find_entity_in (g_entities s) (get_name e)) as [e'|] eqn:E.
  - apply find_entity_in_Some in E as [Hin Hname].
    assert (get_name e ∈ get_name <$> g_entities s).
    { rewrite <- Hname. by apply list_elem_of_fmap_2. }
    split; [done|]. by intros Hnot.
  - apply find_entity_in_None in E. split; [|done].
    split; [discriminate | by intros Hin].
Qed.

(** X7. When a traversal has returned, a signal is registered exactly when
    it was registered before the traversal or the traversal registered it:
    nothing ever removes a signal from the map. *)
Theorem signal_registered_iff l s s1 sig :
  run base l s = Ok tt s1 →
  is_Some (g_known_signals s1 !! sig) ↔
  is_Some (g_known_signals s !! sig) ∨
  existsb (is_remember_of sig) l = true.
Proof.
  intros Hrun. split.
  - intros Hreg.
    destruct (g_known_signals s !! sig) as [d|] eqn:Hd; [left; by eexists|].
    destruct (existsb (is_remember_of sig) l) eqn:Hex; [by right|].
    apply existsb_false_forallb in Hex.
    rewrite (run_signal_unregistered base _ sig _ _ Hrun Hex Hd) in Hreg.
    by destruct Hreg.
  - intros [[d Hd]|Hex].
    + destruct (run_signal_kept base _ sig _ _ Hrun d Hd) as (d'&->&_).
      by eexists.
    + by apply (run_remember_registered base _ sig _ _ Hrun).
Qed.

(** X9. The whole log of a run whose traversal returns: first the text of
    the error messages, three pieces per [error] call in call order; then,
    only when the status is 0, the opening of the output stream, one [emit]
    per registered entity in registration order, and the closing. So the
    output stream is opened only after the whole traversal, and it is opened
    and closed even when no entity was registered. *)
Theorem target_design_log des s s1 :
  run_start base s →
  run base (design_calls des) s = Ok tt s1 →
  ∃ r st,
    target_design base des s = Ok r st ∧
    io_log st =
      io_log s ++ printed (design_calls des) ++
      (if decide (r = 0)
       then OfstreamOpen (design_flag_o des)
              :: (EntityEmit <$> remembered (design_calls des))
              ++ [OfstreamClose]
       else []).
Proof.
  intros Hstart Hrun.
  destruct (run_start_inv base s Hstart) as [Hent _].
  pose proof (run_entities base _ _ _ Hrun) as Hl.
  pose proof (run_io base _ _ _ Hrun) as Hio.
  rewrite Hent in Hl. cbn in Hl.
  rewrite target_design_unfold, Hrun. eexists. eexists.
  split; [reflexivity|]. cbn [io_log].
  destruct (decide (0 = g_errors s1)) as [Hz|Hnz].
  - rewrite decide_True by done. by rewrite Hio, Hl, <- app_assoc.
  - rewrite decide_False by done. by rewrite Hio, !app_nil_r.
Qed.

(** X12. A signal can be registered only once in a process: when a run whose
    traversal registered a signal has returned, then after any number of
    further runs that returned, no run whose traversal registers that
    signal returns. *)
Theorem signal_reregistration_never_returns des1 des2 s r1 st1 s' sig :
  target_design base des1 s = Ok r1 st1 →
  existsb (is_remember_of sig) (design_calls des1) = true →
  later_run base st1 s' →
  existsb (is_remember_of sig) (design_calls des2) = true →
  ∀ r2 st2, target_design base des2 s' ≠ Ok r2 st2.
Proof.
  intros Htd Hex1 Hlater Hex2 r2 st2 Htd2.
  assert (Hreg : is_Some (g_known_signals s' !! sig)).
  { apply (later_run_keeps_signal st1 s' sig Hlater).
    rewrite target_design_unfold in Htd.
    destruct (run base (design_calls des1) s) as [[] s1| |] eqn:Hrun1;
      [|discriminate|discriminate].
    injection Htd as <- <-. cbn.
    by apply (run_remember_registered base _ sig _ _ Hrun1). }
  rewrite target_design_unfold in Htd2.
  destruct (run base (design_calls des2) s') as [[] s2| |] eqn:Hrun2;
    [|discriminate|discriminate].
  exact (run_reregister_fails base _ sig _ Hreg Hex2 s2 Hrun2).
Qed.

End Runs_in_a_process.

(** ** The further properties on concrete traces *)

(** Renaming signal 2 after [register_top], which registers signal 1. *)
Lemma rename_unregistered_aborts_witness :
  g_known_signals initial_state !! 2%N = None ∧
  run basename_of register_top initial_state = Ok tt top_registered ∧
  forallb (λ c, negb (is_remember_of 2%N c)) register_top = true ∧
  rename_signal 2%N "q_reg" top_registered = AssertFail.
Proof.
  split; [reflexivity|].
  split; [vm_compute; reflexivity|].
  split; [reflexivity|].
  apply (rename_unregistered_aborts basename_of register_top initial_state
           top_registered 2%N "q_reg");
    [reflexivity | vm_compute; reflexivity | reflexivity].
Defined.

(** The owner of [clk] after [later_calls], which rename it twice. *)
Lemma owner_never_changes_witness :
  g_known_signals top_registered !! 1%N = Some signal_clk ∧
  run basename_of later_calls top_registered = Ok tt mixed_done ∧
  find_entity_for_signal 1%N mixed_done = Ok (ent signal_clk) mixed_done.
Proof.
  split; [reflexivity|].
  split; [vm_compute; reflexivity|].
  apply (owner_never_changes basename_of later_calls top_registered
           mixed_done 1%N signal_clk);
    [reflexivity | vm_compute; reflexivity].
Defined.

(** The name of [clk] after [later_calls]: the name of its second rename. *)
Lemma name_is_last_rename_witness :
  g_known_signals top_registered !! 1%N = Some signal_clk ∧
  run basename_of later_calls top_registered = Ok tt mixed_done ∧
  get_renamed_signal 1%N mixed_done
    = Ok (default (renamed signal_clk) (last_rename 1%N later_calls))
         mixed_done.
Proof.
  split; [reflexivity|].
  split; [vm_compute; reflexivity|].
  apply (name_is_last_rename basename_of later_calls top_registered
           mixed_done 1%N signal_clk);
    [reflexivity | vm_compute; reflexivity].
Defined.

(** Looking up entities after [mixed_calls]. *)
Lemma find_entity_after_run_witness :
  run_start basename_of initial_state ∧
  run basename_of mixed_calls initial_state = Ok tt mixed_done ∧
  ((∀ e, e ∈ remembered mixed_calls →
         find_entity (get_name e) mixed_done = Ok (Some e) mixed_done) ∧
   (∀ tname, tname ∉ get_name <$> remembered mixed_calls →
             find_entity tname mixed_done = Ok NULL mixed_done)).
Proof.
  split; [apply run_start_loaded|].
  split; [vm_compute; reflexivity|].
  apply (find_entity_after_run basename_of mixed_calls initial_state
           mixed_done);
    [apply run_start_loaded | vm_compute; reflexivity].
Defined.

(** The registry after [mixed_calls]. *)
Lemma registry_names_distinct_witness :
  run_start basename_of initial_state ∧
  run basename_of mixed_calls initial_state = Ok tt mixed_done ∧
  (g_entities mixed_done = remembered mixed_calls ∧
   NoDup (get_name <$> g_entities mixed_done)).
Proof.
  split; [apply run_start_loaded|].
  split; [vm_compute; reflexivity|].
  apply (registry_names_distinct basename_of mixed_calls initial_state
           mixed_done);
    [apply run_start_loaded | vm_compute; reflexivity].
Defined.

(** Signal 2 after [mixed_calls]. *)
Lemma signal_registered_iff_witness :
  run basename_of mixed_calls initial_state = Ok tt mixed_done ∧
  (is_Some (g_known_signals mixed_done !! 2%N) ↔
   is_Some (g_known_signals initial_state !! 2%N) ∨
   existsb (is_remember_of 2%N) mixed_calls = true).
Proof.
  split; [vm_compute; reflexivity|].
  apply (signal_registered_iff basename_of mixed_calls initial_state
           mixed_done 2%N).
  vm_compute; reflexivity.
Defined.

(** The log of the run of [clean_design] in a fresh process. *)
Lemma target_design_log_witness :
  run_start basename_of initial_state ∧
  run basename_of (design_calls clean_design) initial_state
    = Ok tt clean_traversed ∧
  ∃ r st,
    target_design basename_of clean_design initial_state = Ok r st ∧
    io_log st =
      io_log initial_state ++ printed (design_calls clean_design) ++
      (if decide (r = 0)
       then OfstreamOpen (design_flag_o clean_design)
              :: (EntityEmit <$> remembered (design_calls clean_design))
              ++ [OfstreamClose]
       else []).
Proof.
  split; [apply run_start_loaded|].
  split; [vm_compute; reflexivity|].
  apply (target_design_log basename_of clean_design initial_state
           clean_traversed);
    [apply run_start_loaded | vm_compute; reflexivity].
Defined.

(** Running [failing_design] again in the same process, after a run of
    [empty_design] in between. *)
Lemma signal_reregistration_never_returns_witness :
  target_design basename_of failing_design initial_state
    = Ok 1 failing_finished ∧
  existsb (is_remember_of 1%N) (design_calls failing_design) = true ∧
  later_run basename_of failing_finished failing_finished ∧
  ∀ r2 st2,
    target_design basename_of failing_design failing_finished ≠ Ok r2 st2.
Proof.
  assert (H : target_design basename_of failing_design initial_state
              = Ok 1 failing_finished) by (vm_compute; reflexivity).
  assert (Hlater : later_run basename_of failing_finished failing_finished).
  { apply (later_run_next basename_of empty_design failing_finished
             failing_finished 1 failing_finished);
      [apply later_run_same | vm_compute; reflexivity]. }
  split; [exact H|]. split; [reflexivity|]. split; [exact Hlater|].
  exact (signal_reregistration_never_returns basename_of failing_design
           failing_design initial_state 1 failing_finished failing_finished
           1%N H eq_refl Hlater eq_refl).
Defined.

Example clashing_design_aborts :
  target_design basename_of clashing_design initial_state = AssertFail.
Proof. reflexivity. Qed.

Example last_rename_of_clk : last_rename 1%N later_calls = Some "clk_i".
Proof. reflexivity. Qed.
